(** * podman.errors.exceptions: the error taxonomy of podman-py

    A shallow embedding of [podman/errors/exceptions.py] and the properties
    its specification states about it.

    Every method that is called on an existing object is translated
    statement by statement into a small state monad whose state is the
    object [self] (with the objects it refers to nested inside): an attribute
    read is [gets], a local variable is a bound name, and a call on an
    attribute runs on the object held there. An initialiser is the function
    from its arguments to the object it leaves. *)

From Stdlib Require Import String Ascii List ZArith Bool Lia DecimalString.
Import ListNotations.

Open Scope string_scope.
Open Scope Z_scope.

(** ** Python built-ins the module relies on *)

Module Py.

(** [str(n)] for an [int]: decimal digits, a leading minus sign when
    negative. *)
Definition str_int (n : Z) : string := NilZero.string_of_int (Z.to_int n).

(** Truthiness of a [str]: only the empty string is falsy. *)
Definition truthy_str (s : string) : bool := negb (s =? "")%string.

(** [x or d] for an [Optional[int]] [x]: [None] and [0] are falsy. *)
Definition int_or (x : option Z) (d : Z) : Z :=
  match x with
  | Some n => if n =? 0 then d else n
  | None => d
  end.

(** [sep.join(parts)]. *)
Definition join (sep : string) (parts : list string) : string :=
  String.concat sep parts.

(** [l.append(x)]. *)
Definition append {A} (l : list A) (x : A) : list A := (l ++ [x])%list.

(** The state monad methods are written in. *)
Definition M (S A : Type) : Type := S -> A * S.

Definition ret {S A} (a : A) : M S A := fun s => (a, s).

Definition bind {S A B} (m : M S A) (k : A -> M S B) : M S B :=
  fun s => let (a, s') := m s in k a s'.

(** [self.attr] read. *)
Definition gets {S A} (attr : S -> A) : M S A := fun s => (attr s, s).

(** The value a method returns, and the object it leaves behind. *)
Definition eval {S A} (m : M S A) (s : S) : A := fst (m s).
Definition exec {S A} (m : M S A) (s : S) : S := snd (m s).

End Py.

Import Py.

Notation "x <- m ;; k" := (bind m (fun x => k))
  (at level 61, m at next level, right associativity).

(** ** The class hierarchy

    The classes the module declares, and the library classes they derive
    from: [HTTPError] and [RequestException] come from [requests], the others
    are built in ([IOError], the base of [RequestException], is [OSError]). *)

Module Class.

Inductive t : Set :=
| BaseException | Exception | OSError | RuntimeError
| RequestException | HTTPError
| APIError | NotFound | ImageNotFound
| DockerException | PodmanError
| BuildError | ContainerError | InvalidArgument | PodmanConnectionError
| StreamParseError.

Definition eq_dec (c d : t) : {c = d} + {c <> d}.
Proof. decide equality. Defined.

Definition eqb (c d : t) : bool := if eq_dec c d then true else false.

(** The base named in each [class] statement ([None] for the root, whose
    base is [object]). *)
Definition base (c : t) : option t :=
  match c with
  | BaseException => None
  | Exception => Some BaseException
  | OSError => Some Exception
  | RuntimeError => Some Exception
  | RequestException => Some OSError
  | HTTPError => Some RequestException
  | APIError => Some HTTPError
  | NotFound => Some APIError
  | ImageNotFound => Some APIError
  | DockerException => Some Exception
  | PodmanError => Some DockerException
  | BuildError => Some PodmanError
  | ContainerError => Some PodmanError
  | InvalidArgument => Some PodmanError
  | PodmanConnectionError => Some PodmanError
  | StreamParseError => Some RuntimeError
  end.

(** The method resolution order: with single inheritance throughout, the
    chain of bases. *)
Fixpoint mro_from (fuel : nat) (c : t) : list t :=
  match fuel with
  | O => []
  | S fuel' =>
      c :: match base c with
           | Some b => mro_from fuel' b
           | None => []
           end
  end.

Definition mro (c : t) : list t := mro_from 16 c.

(** [issubclass(c, d)]. *)
Definition issubclass (c d : t) : bool := existsb (eqb d) (mro c).

(** Whether the class statement of [c] (or, for a library class, its
    implementation) defines [__str__]. *)
Definition defines_str (c : t) : bool :=
  match c with
  | BaseException | OSError | APIError | PodmanConnectionError => true
  | _ => false
  end.

(** The class whose [__str__] runs for an instance of [c]. *)
Definition resolve_str (c : t) : option t := find defines_str (mro c).

(** [except handler:] catches an exception of class [c]. *)
Definition catches (handler c : t) : bool := issubclass c handler.

End Class.

(** ** The HTTP response an [APIError] refers to

    [requests.Response] (or the client's wrapper of it), as far as this module
    reads it. *)

Module Response.

Record t : Set := mk { status_code : Z; reason : string }.

End Response.

(** ** class APIError(HTTPError) *)

Module APIError.

(** An instance of [APIError] or of a subclass that adds no attribute:
    [ob_type] is the class it was created from, [args] the one positional
    argument the base initialiser keeps. *)
Record t : Set := mk {
  ob_type : Class.t;
  args : string;
  response : option Response.t;
  explanation : option string
}.

(** [cls(message, response, explanation)] for [cls] one of [APIError],
    [NotFound], [ImageNotFound] (the subclasses inherit [__init__]): the
    fresh instance of [cls] once [__init__] has run.
    [super().__init__(message, response=response)] reaches
    [RequestException], which keeps the response, and [OSError], which
    keeps the message as its one argument. *)
Definition __init__ (cls : Class.t) (message : string)
    (resp : option Response.t) (expl : option string) : t :=
  {| ob_type := cls; args := message; response := resp;
     explanation := expl |}.

(** [HTTPError.__str__], inherited from [OSError]: with one argument, that
    argument. *)
Definition super_str : M t string := gets args.

(** The [status_code] property. *)
Definition status_code : M t (option Z) :=
  r <- gets response ;;
  match r with
  | Some r => ret (Some (Response.status_code r))
  | None => ret None
  end.

Definition is_client_error : M t bool :=
  c <- status_code ;;
  ret ((400 <=? int_or c 0) && (int_or c 0 <? 500)).

Definition is_server_error : M t bool :=
  c <- status_code ;;
  ret ((500 <=? int_or c 0) && (int_or c 0 <? 600)).

Definition is_error : M t bool :=
  c <- is_client_error ;;
  if c then ret true else is_server_error.

(** [f"{self.status_code}"]. *)
Definition fmt_status (c : option Z) : string :=
  match c with
  | Some n => str_int n
  | None => "None"
  end.

Definition __str__ : M t string :=
  msg <- super_str ;;
  r <- gets response ;;
  msg <- match r with
         | Some r => ret (Response.reason r)
         | None => ret msg
         end ;;
  c <- is_client_error ;;
  msg <- (if c then
            code <- status_code ;;
            ret (fmt_status code ++ " Client Error: " ++ msg)
          else
            s <- is_server_error ;;
            if s then
              code <- status_code ;;
              ret (fmt_status code ++ " Server Error: " ++ msg)
            else ret msg) ;;
  x <- gets explanation ;;
  msg <- match x with
         | Some x =>
             if truthy_str x then ret (msg ++ " (" ++ x ++ ")")
             else ret msg
         | None => ret msg
         end ;;
  ret msg.

(** [isinstance(e, c)]. *)
Definition isinstance (e : t) (c : Class.t) : bool :=
  Class.issubclass (ob_type e) c.

End APIError.

(** ** dict[str, str]

    A dict is its items in insertion order; the keys of a dict are pairwise
    distinct ([wf]). *)

Module Dict.

Definition t : Set := list (string * string).

Definition wf (d : t) : Prop := NoDup (map fst d).

(** [wf], decided. *)
Fixpoint wfb (d : t) : bool :=
  match d with
  | [] => true
  | (k, _) :: d' =>
      negb (existsb (String.eqb k) (map fst d')) && wfb d'
  end.

Definition items (d : t) : list (string * string) := d.

(** [d[k] = v]: an existing key keeps its place, a new key goes last. *)
Fixpoint setitem (d : t) (k v : string) : t :=
  match d with
  | [] => [(k, v)]
  | (k', v') :: d' =>
      if (k' =? k)%string then (k', v) :: d'
      else (k', v') :: setitem d' k v
  end.

(** One round of a comprehension: the item is stored when the condition
    holds of its key. *)
Definition comprehension_step (cond : string -> bool) (acc : t)
    (kv : string * string) : t :=
  if cond (fst kv) then setitem acc (fst kv) (snd kv) else acc.

(** [{k: v for k, v in src.items() if cond(k)}]. *)
Definition comprehension (cond : string -> bool) (src : t) : t :=
  fold_left (comprehension_step cond) (items src) [].

(** Truthiness: only the empty dict is falsy. *)
Definition truthy (d : t) : bool :=
  match d with
  | [] => false
  | _ :: _ => true
  end.

End Dict.

(** ** What the module takes from outside

    [Container] is the class of [podman.domain.containers], imported for type
    checking only; [repr_str] is Python's [repr] of a [str], which [str] of a
    list or of a tuple applies to each element. *)

Class Runtime : Type := {
  Container : Type;
  repr_str : string -> string
}.

Module Builtins.
Section WithRuntime.
Context {RT : Runtime}.

(** [str(l)] for a list of strings. *)
Definition str_list (l : list string) : string :=
  "[" ++ join ", " (map repr_str l) ++ "]".

(** [str(t)] for a tuple of strings. *)
Definition str_tuple (l : list string) : string :=
  match l with
  | [x] => "(" ++ repr_str x ++ ",)"
  | _ => "(" ++ join ", " (map repr_str l) ++ ")"
  end.

(** [BaseException.__str__] on the argument tuple. *)
Definition str_args (args : list string) : string :=
  match args with
  | [] => ""
  | [x] => x
  | _ => str_tuple args
  end.

End WithRuntime.
End Builtins.

(** ** Classes without a body: DockerException, PodmanError, InvalidArgument

    Their instances, and those of the built-in exception classes, carry the
    argument tuple and nothing else. *)

Module Plain.

Record t : Set := mk { ob_type : Class.t; args : list string }.

(** [cls] called on the given positional arguments. *)
Definition __init__ (cls : Class.t) (arguments : list string) : t :=
  {| ob_type := cls; args := arguments |}.

(** [BaseException.__str__]. *)
Definition __str__ {RT : Runtime} : M t string :=
  a <- gets args ;;
  ret (Builtins.str_args a).

End Plain.

(** ** class BuildError(PodmanError) *)

Module BuildError.

Record t : Set := mk {
  args : string;
  msg : string;
  build_log : list string
}.

Definition __init__ (reason : string) (log : list string) : t :=
  {| args := reason; msg := reason; build_log := log |}.

(** Inherited [BaseException.__str__]. *)
Definition __str__ : M t string := gets args.

End BuildError.

(** ** class StreamParseError(RuntimeError) *)

Module StreamParseError.

Record t : Set := mk { args : string; msg : string }.

Definition __init__ (reason : string) : t :=
  {| args := reason; msg := reason |}.

(** Inherited [BaseException.__str__]. *)
Definition __str__ : M t string := gets args.

End StreamParseError.

(** ** class ContainerError(PodmanError) *)

Module ContainerError.

(** What is passed as the command (a [Union[str, list[str]]]) or as the
    error output (an [Iterable[str]]): a string, a list of strings, or some
    other iterable, known here by what [str] returns for it. *)
Inductive Value : Set :=
| Str (s : string)
| Lst (l : list string)
| Other (rendered : string).

Section WithRuntime.
Context {RT : Runtime}.

(** What an f-string puts in place of [{v}]. *)
Definition fmt (v : Value) : string :=
  match v with
  | Str s => s
  | Lst l => Builtins.str_list l
  | Other rendered => rendered
  end.

Record t : Type := mk {
  args : string;
  container : Container;
  exit_status : Z;
  command : Value;
  image : string;
  stderr : option Value
}.

Definition __init__ (container_ : Container) (exit_status_ : Z)
    (command_ : Value) (image_ : string)
    (stderr_ : option Value) : t :=
  let err := match stderr_ with
             | Some e => ": " ++ fmt e
             | None => ""
             end in
  let msg := "Command '" ++ fmt command_ ++ "' in image '" ++ image_
             ++ "' returned non-zero exit status "
             ++ str_int exit_status_ ++ err in
  {| args := msg; container := container_; exit_status := exit_status_;
     command := command_; image := image_; stderr := stderr_ |}.

(** Inherited [BaseException.__str__]. *)
Definition __str__ : M t string := gets args.

(** An assignment to one of the attributes [__init__] set, by whoever
    holds the error. *)
Inductive assignment : Type :=
| SetContainer (c : Container)
| SetExitStatus (n : Z)
| SetCommand (c : Value)
| SetImage (i : string)
| SetStderr (e : option Value).

Definition assign (self : t) (a : assignment) : t :=
  match a with
  | SetContainer c =>
      {| args := args self; container := c;
         exit_status := exit_status self; command := command self;
         image := image self; stderr := stderr self |}
  | SetExitStatus n =>
      {| args := args self; container := container self;
         exit_status := n; command := command self;
         image := image self; stderr := stderr self |}
  | SetCommand c =>
      {| args := args self; container := container self;
         exit_status := exit_status self; command := c;
         image := image self; stderr := stderr self |}
  | SetImage i =>
      {| args := args self; container := container self;
         exit_status := exit_status self; command := command self;
         image := i; stderr := stderr self |}
  | SetStderr e =>
      {| args := args self; container := container self;
         exit_status := exit_status self; command := command self;
         image := image self; stderr := e |}
  end.

End WithRuntime.

End ContainerError.

(** ** class PodmanConnectionError(PodmanError) *)

Module PodmanConnectionError.

(** The tuple the comprehension tests keys against. *)
Definition relevant_names : list string :=
  [ "DOCKER_HOST"; "CONTAINER_HOST";
    "DOCKER_TLS_VERIFY"; "CONTAINER_TLS_VERIFY";
    "DOCKER_CERT_PATH"; "CONTAINER_CERT_PATH" ].

(** [k in (...)]. *)
Definition is_relevant (k : string) : bool :=
  existsb (String.eqb k) relevant_names.

Section WithCause.
(** The exception objects an error can be caused by, and [str] on them:
    the call [str(self.original_error)] is dispatched on the class of
    the cause. *)
Variable E : Type.
Variable str_cause : M E string.

Record t : Type := mk {
  args : string;
  environment : option Dict.t;
  host : option string;
  original_error : option E
}.

Definition __init__ (message : string) (environment_ : option Dict.t)
    (host_ : option string) (original_error_ : option E) : t :=
  {| args := message; environment := environment_; host := host_;
     original_error := original_error_ |}.

(** Inherited [BaseException.__str__], called as [super().__str__()]. *)
Definition super_str : M t string := gets args.

(** [str(self.original_error)] on an error that has a cause [e]: the
    cause is rendered where it is, in the attribute. *)
Definition str_original_error (e : E) : M t string :=
  fun self =>
    let (s, e') := str_cause e in
    (s, {| args := args self; environment := environment self;
           host := host self; original_error := Some e' |}).

Definition __str__ : M t string :=
  first <- super_str ;;
  let msg := [first] in
  h <- gets host ;;
  msg <- match h with
         | Some h =>
             if truthy_str h then ret (append msg ("Host: " ++ h))
             else ret msg
         | None => ret msg
         end ;;
  env <- gets environment ;;
  msg <- match env with
         | Some env =>
             if Dict.truthy env then
               let relevant_vars := Dict.comprehension is_relevant env in
               if Dict.truthy relevant_vars then
                 let msg := append msg "Environment:" in
                 ret (fold_left
                        (fun msg kv =>
                           append msg ("  " ++ fst kv ++ "=" ++ snd kv))
                        (Dict.items relevant_vars) msg)
               else ret msg
             else ret msg
         | None => ret msg
         end ;;
  cause <- gets original_error ;;
  msg <- match cause with
         | Some e =>
             s <- str_original_error e ;;
             ret (append msg ("Caused by: " ++ s))
         | None => ret msg
         end ;;
  ret (join " | " msg).

End WithCause.

Arguments mk {E}.
Arguments args {E}.
Arguments environment {E}.
Arguments host {E}.
Arguments original_error {E}.
Arguments __init__ {E}.
Arguments __str__ {E}.

End PodmanConnectionError.

(** ** Exception objects, and [str] on them *)

Section Exceptions.
Context {RT : Runtime}.

(** An instance of one of the classes of the hierarchy. *)
#[warnings="-register-all"]
Inductive Exn : Type :=
| OfAPIError (e : APIError.t)
| OfPlain (e : Plain.t)
| OfBuildError (e : BuildError.t)
| OfContainerError (e : ContainerError.t)
| OfPodmanConnectionError (e : PodmanConnectionError.t Exn)
| OfStreamParseError (e : StreamParseError.t).

(** The length of the chain of causes behind [e]. *)
Fixpoint causes (e : Exn) : nat :=
  match e with
  | OfPodmanConnectionError c =>
      match PodmanConnectionError.original_error c with
      | Some e' => S (causes e')
      | None => O
      end
  | _ => O
  end.

(** [str(e)], following at most [depth] links of the chain of causes: the
    [__str__] the class of [e] resolves to, run on [e]. A connection error
    renders its cause by a nested call of [str]. *)
Fixpoint str_within (depth : nat) (e : Exn) : string * Exn :=
  match e with
  | OfAPIError e =>
      let (s, e') := APIError.__str__ e in (s, OfAPIError e')
  | OfPlain e =>
      let (s, e') := Plain.__str__ e in (s, OfPlain e')
  | OfBuildError e =>
      let (s, e') := BuildError.__str__ e in (s, OfBuildError e')
  | OfContainerError e =>
      let (s, e') := ContainerError.__str__ e in (s, OfContainerError e')
  | OfPodmanConnectionError c =>
      match depth with
      | S depth' =>
          let (s, c') :=
            PodmanConnectionError.__str__ (str_within depth') c in
          (s, OfPodmanConnectionError c')
      | O => ("", e)
      end
  | OfStreamParseError e =>
      let (s, e') := StreamParseError.__str__ e in
      (s, OfStreamParseError e')
  end.

(** [str(e)]: the chain of causes is finite, and followed to its end. *)
Definition str : M Exn string := fun e => str_within (S (causes e)) e.

End Exceptions.

(** A runtime for the concrete cases: containers are known by their id, and
    [repr] is applied to strings that need no escaping. *)
Definition example_runtime : Runtime :=
  {| Container := string; repr_str := fun s => "'" ++ s ++ "'" |}.

(** A line feed. *)
Definition LF : string := String (ascii_of_nat 10) "".

(** The connection error of the specification's example: a host, and an
    environment with one connection variable and one unrelated variable. *)
Definition cannot_connect : PodmanConnectionError.t (@Exn example_runtime) :=
  PodmanConnectionError.__init__ "cannot connect"
    (Some [("DOCKER_HOST", "tcp://x"); ("UNRELATED", "y")])
    (Some "unix:///var/run/podman.sock") None.

(** ** The rendering algorithms as the specification words them *)

Module Spec.

(** [statusCode()]: read from the response, absent without one. *)
Definition statusCode (e : APIError.t) : option Z :=
  option_map Response.status_code (APIError.response e).

(** [isClientError()]: [400 <= statusCode < 500], an absent status code
    treated as [0]. *)
Definition isClientError (e : APIError.t) : bool :=
  let c := match statusCode e with Some c => c | None => 0 end in
  (400 <=? c) && (c <? 500).

(** [isServerError()]: [500 <= statusCode < 600]. *)
Definition isServerError (e : APIError.t) : bool :=
  let c := match statusCode e with Some c => c | None => 0 end in
  (500 <=? c) && (c <? 600).

(** An optional string is present when it is not [None]. *)
Definition present (o : option string) : bool :=
  match o with
  | Some _ => true
  | None => false
  end.

(** An optional string is present and not empty. *)
Definition nonempty (o : option string) : bool :=
  match o with
  | Some s => negb (s =? "")%string
  | None => false
  end.

(** [render()] of a transport error: start from the message; with a
    response, replace it by the reason; prefix by the status class; if the
    explanation is there ([given]), append it in parentheses. *)
Definition render_transport (given : option string -> bool)
    (e : APIError.t) : string :=
  let working := APIError.args e in
  let working :=
    match APIError.response e with
    | Some r => Response.reason r
    | None => working
    end in
  let code := match statusCode e with Some c => str_int c | None => "" end in
  let working :=
    if isClientError e then code ++ " Client Error: " ++ working
    else if isServerError e then code ++ " Server Error: " ++ working
    else working in
  if given (APIError.explanation e) then
    working ++ " ("
      ++ match APIError.explanation e with Some x => x | None => "" end
      ++ ")"
  else working.

(** The six names of the allow-list, by family. *)
Definition allow_list : list string :=
  [ "DOCKER_HOST"; "DOCKER_TLS_VERIFY"; "DOCKER_CERT_PATH";
    "CONTAINER_HOST"; "CONTAINER_TLS_VERIFY"; "CONTAINER_CERT_PATH" ].

Definition allowed (k : string) : bool := existsb (String.eqb k) allow_list.

(** The entries of the environment that survive the filter, in the order
    of the mapping; none when there is no environment. *)
Definition surviving (env : option Dict.t) : list (string * string) :=
  match env with
  | Some d => filter (fun kv => allowed (fst kv)) (Dict.items d)
  | None => []
  end.

Definition host_segment (given : option string -> bool)
    (host : option string) : list string :=
  if given host then
    ["Host: " ++ match host with Some h => h | None => "" end]
  else [].

(** The line of one entry. *)
Definition line (kv : string * string) : string :=
  "  " ++ fst kv ++ "=" ++ snd kv.

(** The header and the lines of the surviving entries; nothing when none
    survives. *)
Definition environment_lines (kept : list (string * string)) : list string :=
  match kept with
  | [] => []
  | _ :: _ => "Environment:" :: map line kept
  end.

(** The same, as the one segment they form when joined by line feeds. *)
Definition environment_segment (kept : list (string * string))
  : list string :=
  match kept with
  | [] => []
  | _ :: _ => [join LF ("Environment:" :: map line kept)]
  end.

Definition cause_segment (rendered : option string) : list string :=
  match rendered with
  | Some s => ["Caused by: " ++ s]
  | None => []
  end.

(** [render()] of a connection error: message, host, environment, cause, in
    this order, joined by [" | "]. [environment] says how the surviving
    entries are laid out. *)
Definition render_connection (given : option string -> bool)
    (environment : list (string * string) -> list string)
    (message : string) (host : option string) (env : option Dict.t)
    (cause : option string) : string :=
  join " | "
    ([message] ++ host_segment given host ++ environment (surviving env)
       ++ cause_segment cause)%list.

End Spec.

(** ** Normal forms of the connection error's rendering *)

(** The dict the comprehension builds, for an optional environment. *)
Definition relevant_vars (env : option Dict.t) : Dict.t :=
  match env with
  | Some d => Dict.comprehension PodmanConnectionError.is_relevant d
  | None => []
  end.

(** The segments before the cause. *)
Definition head_segments {E : Type} (c : PodmanConnectionError.t E)
  : list string :=
  ([PodmanConnectionError.args c]
     ++ Spec.host_segment Spec.nonempty (PodmanConnectionError.host c)
     ++ Spec.environment_lines
          (relevant_vars (PodmanConnectionError.environment c)))%list.

(** ** Read-only methods *)

(** A method is read-only when it leaves the object as it found it. *)
Definition readonly {S A} (m : M S A) : Prop := forall s, exec m s = s.

(** * Properties *)

(** ** Methods that only read *)

Lemma readonly_ret {S A} (a : A) : readonly (@ret S A a).
Proof. intro s. reflexivity. Qed.

Lemma readonly_gets {S A} (attr : S -> A) : readonly (gets attr).
Proof. intro s. reflexivity. Qed.

Lemma readonly_bind {S A B} (m : M S A) (k : A -> M S B) :
  readonly m -> (forall a, readonly (k a)) -> readonly (bind m k).
Proof.
  intros Hm Hk s. unfold exec, bind.
  specialize (Hm s). unfold exec in Hm.
  destruct (m s) as [a s'] eqn:E. simpl in Hm. subst s'.
  apply Hk.
Qed.

Lemma readonly_if {S A} (b : bool) (m1 m2 : M S A) :
  readonly m1 -> readonly m2 -> readonly (if b then m1 else m2).
Proof. destruct b; auto. Qed.

Lemma readonly_option {S A B} (o : option B) (k : B -> M S A) (m : M S A) :
  (forall b, readonly (k b)) -> readonly m ->
  readonly (match o with Some b => k b | None => m end).
Proof. destruct o; auto. Qed.

Create HintDb readonly.
#[export] Hint Resolve readonly_ret readonly_gets readonly_if readonly_option
  : readonly.

Ltac readonly_steps :=
  repeat first
    [ apply readonly_bind; [ | intro ]
    | apply readonly_option; [ intro | ]
    | apply readonly_if
    | apply readonly_ret
    | apply readonly_gets
    | solve [ auto with readonly ] ].

(** A read-only method returns what it returns, on the object it was given. *)
Lemma readonly_run {S A} (m : M S A) (s : S) :
  readonly m -> m s = (eval m s, s).
Proof.
  intro H. specialize (H s). unfold exec, eval in *.
  destruct (m s); simpl in *; subst; reflexivity.
Qed.

(** What [bind] returns when its first part is read-only. *)
Lemma eval_bind_readonly {S A B} (m : M S A) (k : A -> M S B) (s : S) :
  readonly m -> eval (bind m k) s = eval (k (eval m s)) s.
Proof.
  intro H. unfold eval at 1. unfold bind.
  rewrite (readonly_run m s H). reflexivity.
Qed.

Lemma readonly_status_code : readonly APIError.status_code.
Proof. unfold APIError.status_code. readonly_steps. Qed.

Lemma readonly_is_client_error : readonly APIError.is_client_error.
Proof.
  unfold APIError.is_client_error.
  apply readonly_bind; [ apply readonly_status_code | readonly_steps ].
Qed.

Lemma readonly_is_server_error : readonly APIError.is_server_error.
Proof.
  unfold APIError.is_server_error.
  apply readonly_bind; [ apply readonly_status_code | readonly_steps ].
Qed.

#[export] Hint Resolve readonly_status_code readonly_is_client_error
  readonly_is_server_error : readonly.

Lemma readonly_is_error : readonly APIError.is_error.
Proof. unfold APIError.is_error. readonly_steps. Qed.

Lemma readonly_APIError_str : readonly APIError.__str__.
Proof. unfold APIError.__str__, APIError.super_str. readonly_steps. Qed.

#[export] Hint Resolve readonly_is_error readonly_APIError_str : readonly.

(** ** APIError: status classes *)

Lemma int_or_zero (c : Z) : int_or (Some c) 0 = c.
Proof.
  unfold int_or. destruct (Z.eqb_spec c 0); congruence.
Qed.

Lemma eval_status_code (e : APIError.t) :
  eval APIError.status_code e = Spec.statusCode e.
Proof.
  unfold Spec.statusCode. destruct e as [cls a [r|] x]; reflexivity.
Qed.

Lemma eval_is_client_error (e : APIError.t) :
  eval APIError.is_client_error e = Spec.isClientError e.
Proof.
  unfold APIError.is_client_error.
  rewrite eval_bind_readonly by auto with readonly.
  rewrite eval_status_code. unfold Spec.isClientError.
  destruct (Spec.statusCode e) as [c|].
  - unfold eval, ret, fst. rewrite int_or_zero. reflexivity.
  - reflexivity.
Qed.

Lemma eval_is_server_error (e : APIError.t) :
  eval APIError.is_server_error e = Spec.isServerError e.
Proof.
  unfold APIError.is_server_error.
  rewrite eval_bind_readonly by auto with readonly.
  rewrite eval_status_code. unfold Spec.isServerError.
  destruct (Spec.statusCode e) as [c|].
  - unfold eval, ret, fst. rewrite int_or_zero. reflexivity.
  - reflexivity.
Qed.

Lemma eval_is_error (e : APIError.t) :
  eval APIError.is_error e
  = eval APIError.is_client_error e || eval APIError.is_server_error e.
Proof.
  unfold APIError.is_error.
  rewrite eval_bind_readonly by auto with readonly.
  destruct (eval APIError.is_client_error e); reflexivity.
Qed.

(** C4. With a response of status code [c], [is_client_error()] is true
    exactly when [400 <= c < 500] and [is_server_error()] exactly when
    [500 <= c < 600]; both are false when [c < 400] or [c >= 600]. Without a
    response the status code is absent, counts as [0], and both are false.
    In every case [is_error()] is [is_client_error() or is_server_error()]. *)
Theorem APIError_status_classes
    (cls : Class.t) (message : string) (expl : option string) :
  (forall r : Response.t,
     let e := APIError.__init__ cls message (Some r) expl in
     let c := Response.status_code r in
     (eval APIError.is_client_error e = true <-> 400 <= c < 500) /\
     (eval APIError.is_server_error e = true <-> 500 <= c < 600) /\
     (c < 400 \/ 600 <= c ->
        eval APIError.is_client_error e = false /\
        eval APIError.is_server_error e = false) /\
     eval APIError.is_error e
     = eval APIError.is_client_error e || eval APIError.is_server_error e)
  /\
  (let e := APIError.__init__ cls message None expl in
   eval APIError.status_code e = None /\
   int_or (eval APIError.status_code e) 0 = 0 /\
   eval APIError.is_client_error e = false /\
   eval APIError.is_server_error e = false /\
   eval APIError.is_error e = false).
Proof.
  split.
  - intros r e c.
    rewrite eval_is_error, eval_is_client_error, eval_is_server_error.
    unfold Spec.isClientError, Spec.isServerError, Spec.statusCode.
    simpl APIError.response. simpl option_map. fold c.
    repeat split; intros; lia.
  - repeat split.
Qed.

Lemma APIError_status_classes_witness :
  let e := APIError.__init__ Class.APIError "moved"
             (Some (Response.mk 302 "Found")) None in
  (302 < 400 \/ 600 <= 302) /\
  eval APIError.is_client_error e = false /\
  eval APIError.is_server_error e = false.
Proof.
  intro e. split; [ left; lia | ].
  destruct (APIError_status_classes Class.APIError "moved" None)
    as [Hwith _].
  destruct (Hwith (Response.mk 302 "Found")) as (_ & _ & Hout & _).
  apply Hout. simpl. left. lia.
Defined.

(** ** APIError: rendering *)

Lemma run_status_code (e : APIError.t) :
  APIError.status_code e = (Spec.statusCode e, e).
Proof.
  rewrite (readonly_run _ e readonly_status_code), eval_status_code.
  reflexivity.
Qed.

Lemma run_is_client_error (e : APIError.t) :
  APIError.is_client_error e = (Spec.isClientError e, e).
Proof.
  rewrite (readonly_run _ e readonly_is_client_error), eval_is_client_error.
  reflexivity.
Qed.

Lemma run_is_server_error (e : APIError.t) :
  APIError.is_server_error e = (Spec.isServerError e, e).
Proof.
  rewrite (readonly_run _ e readonly_is_server_error), eval_is_server_error.
  reflexivity.
Qed.

(** One statement of a method, run. *)
Ltac step := cbv beta iota zeta delta [bind gets ret].

Ltac fields :=
  cbn [APIError.response APIError.args APIError.explanation APIError.ob_type
       option_map Response.status_code Response.reason].

Ltac finish_explanation x :=
  destruct x as [x|]; [ | reflexivity ];
  unfold Spec.nonempty, truthy_str; fields;
  destruct (x =? "")%string; reflexivity.

(** [__str__] returns the rendering in which an explanation counts when it
    is a non-empty string, and leaves the error as it was. *)
Lemma run_APIError_str (e : APIError.t) :
  APIError.__str__ e = (Spec.render_transport Spec.nonempty e, e).
Proof.
  destruct e as [cls a r x].
  unfold APIError.__str__, APIError.super_str, Spec.render_transport.
  step. fields.
  destruct r as [[c reason]|]; rewrite run_is_client_error;
    unfold Spec.isClientError, Spec.isServerError, Spec.statusCode; fields.
  - destruct ((400 <=? c) && (c <? 500)).
    + step. rewrite run_status_code. unfold Spec.statusCode. step. fields.
      finish_explanation x.
    + step. rewrite run_is_server_error.
      unfold Spec.isServerError, Spec.statusCode. fields.
      destruct ((500 <=? c) && (c <? 600)); step.
      * rewrite run_status_code. unfold Spec.statusCode. step. fields.
        finish_explanation x.
      * fields. finish_explanation x.
  - replace ((400 <=? 0) && (0 <? 500)) with false by reflexivity.
    step. rewrite run_is_server_error.
    unfold Spec.isServerError, Spec.statusCode. fields.
    replace ((500 <=? 0) && (0 <? 600)) with false by reflexivity.
    step. fields. finish_explanation x.
Qed.

Lemma eval_APIError_str (e : APIError.t) :
  eval APIError.__str__ e = Spec.render_transport Spec.nonempty e.
Proof. unfold eval. rewrite run_APIError_str. reflexivity. Qed.

(** An explanation that is present but empty: the rendering has no
    parenthesised suffix, where the algorithm that appends whenever an
    explanation is present gives ["m ()"]. *)
Lemma APIError_str_empty_explanation :
  eval APIError.__str__ (APIError.__init__ Class.APIError "m" None (Some ""))
  = "m" /\
  Spec.render_transport Spec.present
    (APIError.__init__ Class.APIError "m" None (Some ""))
  = "m ()" /\
  eval APIError.__str__ (APIError.__init__ Class.APIError "m" None (Some ""))
  <> Spec.render_transport Spec.present
       (APIError.__init__ Class.APIError "m" None (Some "")).
Proof. repeat split. vm_compute. discriminate. Qed.

(** C1, amended. [__str__] starts from the constructor message; with a
    response it replaces the working message by [response.reason]; if
    [is_client_error()] it prefixes ["{status_code} Client Error: "], else if
    [is_server_error()] it prefixes ["{status_code} Server Error: "]; last,
    if the explanation is present and not the empty string, it appends
    [" ({explanation})"]. Status 404 with reason "Not Found" renders
    "404 Client Error: Not Found", and with the explanation
    "no such container" it renders
    "404 Client Error: Not Found (no such container)". *)
Theorem APIError_str_algorithm :
  (forall e : APIError.t,
     eval APIError.__str__ e = Spec.render_transport Spec.nonempty e) /\
  (forall e : APIError.t,
     Spec.isClientError e = eval APIError.is_client_error e /\
     Spec.isServerError e = eval APIError.is_server_error e /\
     Spec.statusCode e = eval APIError.status_code e) /\
  (forall (cls : Class.t) (message : string),
     eval APIError.__str__
       (APIError.__init__ cls message (Some (Response.mk 404 "Not Found"))
          None)
     = "404 Client Error: Not Found" /\
     eval APIError.__str__
       (APIError.__init__ cls message (Some (Response.mk 404 "Not Found"))
          (Some "no such container"))
     = "404 Client Error: Not Found (no such container)").
Proof.
  split; [ exact eval_APIError_str | split ].
  - intro e.
    rewrite eval_is_client_error, eval_is_server_error, eval_status_code.
    repeat split.
  - intros cls message. rewrite !eval_APIError_str. split; reflexivity.
Qed.

(** C6. An [APIError] constructed with [response=None] renders exactly as its
    message, whatever the message: its status code is [None], neither
    [is_client_error()] nor [is_server_error()] holds, and no status prefix
    is put before the message (an explanation, when one is passed as well,
    only adds its parenthesised suffix after it). *)
Theorem APIError_str_without_response (cls : Class.t) (message : string) :
  let e := APIError.__init__ cls message None None in
  eval APIError.__str__ e = message /\
  eval APIError.status_code e = None /\
  eval APIError.is_client_error e = false /\
  eval APIError.is_server_error e = false /\
  (forall expl : option string,
     eval APIError.__str__ (APIError.__init__ cls message None expl)
     = message ++ match expl with
                  | Some x => if (x =? "")%string then ""
                              else " (" ++ x ++ ")"
                  | None => ""
                  end).
Proof.
  intro e. repeat split.
  intros [x|]; rewrite eval_APIError_str; unfold Spec.render_transport;
    cbn.
  - destruct (x =? "")%string; cbn.
    + clear. induction message; cbn; congruence.
    + reflexivity.
  - clear. induction message; cbn; congruence.
Qed.

(** C9. An explanation equal to the empty string is falsy: the error renders
    without the [" ({explanation})"] suffix (as the algorithm does when the
    suffix step is left out), exactly as with [explanation=None]. *)
Theorem APIError_str_explanation_empty
    (cls : Class.t) (message : string) (resp : option Response.t) :
  eval APIError.__str__ (APIError.__init__ cls message resp (Some ""))
  = eval APIError.__str__ (APIError.__init__ cls message resp None) /\
  eval APIError.__str__ (APIError.__init__ cls message resp (Some ""))
  = Spec.render_transport (fun _ => false)
      (APIError.__init__ cls message resp (Some "")).
Proof. rewrite !eval_APIError_str. split; reflexivity. Qed.

Example APIError_str_503 :
  eval APIError.__str__
    (APIError.__init__ Class.APIError "upstream"
       (Some (Response.mk 503 "Service Unavailable")) None)
  = "503 Server Error: Service Unavailable".
Proof. reflexivity. Qed.

(** A status outside both classes: the reason alone. *)
Example APIError_str_302 :
  eval APIError.__str__
    (APIError.__init__ Class.APIError "moved"
       (Some (Response.mk 302 "Found")) (Some "see other"))
  = "Found (see other)".
Proof. reflexivity. Qed.

(** The status code is read from the response at each call: after the
    response has changed, so has the rendering. *)
Example APIError_str_follows_response :
  let e := APIError.__init__ Class.APIError "x"
             (Some (Response.mk 404 "Not Found")) None in
  let e' := APIError.mk (APIError.ob_type e) (APIError.args e)
              (Some (Response.mk 500 "Internal Server Error"))
              (APIError.explanation e) in
  eval APIError.__str__ e = "404 Client Error: Not Found" /\
  eval APIError.__str__ e' = "500 Server Error: Internal Server Error".
Proof. split; reflexivity. Qed.

(** ** The hierarchy *)

Lemma eqb_eq (c d : Class.t) : Class.eqb c d = true <-> c = d.
Proof.
  unfold Class.eqb. destruct (Class.eq_dec c d); split; congruence.
Qed.

(** Sixteen steps reach the root from every class: the resolution order is
    complete. *)
Lemma mro_reaches_root (c : Class.t) :
  last (Class.mro c) c = Class.BaseException.
Proof. destruct c; reflexivity. Qed.

Lemma mro_step (c b : Class.t) :
  Class.base c = Some b -> Class.mro c = c :: Class.mro b.
Proof. destruct c; simpl; intro H; inversion H; reflexivity. Qed.

Lemma issubclass_refl (c : Class.t) : Class.issubclass c c = true.
Proof. destruct c; reflexivity. Qed.

Lemma issubclass_base (c b d : Class.t) :
  Class.base c = Some b -> Class.issubclass b d = true ->
  Class.issubclass c d = true.
Proof.
  intros Hb Hd. unfold Class.issubclass in *. rewrite (mro_step c b Hb).
  cbn [existsb]. rewrite Hd. apply orb_true_r.
Qed.

Lemma issubclass_trans (c d e : Class.t) :
  Class.issubclass c d = true -> Class.issubclass d e = true ->
  Class.issubclass c e = true.
Proof. destruct c, d; try discriminate; destruct e; trivial. Qed.

(** The [__str__] each class of the module resolves to: [NotFound] and
    [ImageNotFound] render as [APIError] does, the classes without a
    [__str__] of their own as [BaseException] does. *)
Lemma resolve_str_table :
  Class.resolve_str Class.HTTPError = Some Class.OSError /\
  Class.resolve_str Class.APIError = Some Class.APIError /\
  Class.resolve_str Class.NotFound = Some Class.APIError /\
  Class.resolve_str Class.ImageNotFound = Some Class.APIError /\
  Class.resolve_str Class.PodmanConnectionError
  = Some Class.PodmanConnectionError /\
  Class.resolve_str Class.DockerException = Some Class.BaseException /\
  Class.resolve_str Class.PodmanError = Some Class.BaseException /\
  Class.resolve_str Class.BuildError = Some Class.BaseException /\
  Class.resolve_str Class.ContainerError = Some Class.BaseException /\
  Class.resolve_str Class.InvalidArgument = Some Class.BaseException /\
  Class.resolve_str Class.StreamParseError = Some Class.BaseException.
Proof. repeat split. Qed.

(** C7. Every instance of [NotFound] and every instance of [ImageNotFound]
    is an instance of [APIError], and when it holds a response whose status
    code is in the 4xx or 5xx range its [is_error()] returns true. *)
Theorem NotFound_is_APIError (e : APIError.t) :
  APIError.ob_type e = Class.NotFound \/
  APIError.ob_type e = Class.ImageNotFound ->
  APIError.isinstance e Class.APIError = true /\
  (forall r : Response.t,
     APIError.response e = Some r ->
     400 <= Response.status_code r < 600 ->
     eval APIError.is_error e = true).
Proof.
  intro Hcls. split.
  - unfold APIError.isinstance.
    destruct Hcls as [H | H]; rewrite H;
      apply (issubclass_base _ Class.APIError); try reflexivity;
      apply issubclass_refl.
  - intros r Hr Hc.
    rewrite eval_is_error, eval_is_client_error, eval_is_server_error.
    unfold Spec.isClientError, Spec.isServerError, Spec.statusCode.
    rewrite Hr. cbn [option_map]. lia.
Qed.

Lemma NotFound_is_APIError_witness :
  let e := APIError.__init__ Class.NotFound "no such pod"
             (Some (Response.mk 404 "Not Found")) None in
  APIError.isinstance e Class.APIError = true /\
  eval APIError.is_error e = true.
Proof.
  intro e.
  destruct (NotFound_is_APIError e (or_introl eq_refl)) as [Hinst Herr].
  split; [ exact Hinst | ].
  apply (Herr (Response.mk 404 "Not Found") eq_refl). simpl. lia.
Defined.

(** C10. [ImageNotFound] derives from [APIError] directly and not from
    [NotFound]: no instance of [ImageNotFound] is an instance of [NotFound],
    and a handler for [NotFound] does not catch it (a handler for [APIError]
    does). *)
Theorem ImageNotFound_not_NotFound
    (message : string) (resp : option Response.t) (expl : option string) :
  let e := APIError.__init__ Class.ImageNotFound message resp expl in
  Class.base Class.ImageNotFound = Some Class.APIError /\
  Class.issubclass Class.ImageNotFound Class.NotFound = false /\
  APIError.isinstance e Class.NotFound = false /\
  Class.catches Class.NotFound (APIError.ob_type e) = false /\
  Class.catches Class.APIError (APIError.ob_type e) = true.
Proof. repeat split. Qed.

(** ** ContainerError *)

Section ContainerErrorProperties.
Context {RT : Runtime}.

Lemma readonly_ContainerError_str : readonly ContainerError.__str__.
Proof. unfold ContainerError.__str__. readonly_steps. Qed.

(** Assignments to the attributes do not reach the argument tuple. *)
Lemma assign_keeps_args (l : list ContainerError.assignment)
    (e : ContainerError.t) :
  ContainerError.args (fold_left ContainerError.assign l e)
  = ContainerError.args e.
Proof.
  revert e. induction l as [| a l IH]; intro e; [ reflexivity | ].
  simpl fold_left. rewrite IH. destruct a; reflexivity.
Qed.

(** C5. [__init__] composes
    ["Command '{command}' in image '{image}' returned non-zero exit status {exit_status}"],
    followed by [": {stderr}"] when [stderr] is not [None], and stores it:
    it is what the error renders as, also after any assignments to the
    attributes, from which it is not derived again. The five arguments stay
    readable as attributes. With command "echo hi", image "alpine" and exit
    status 1 the rendering is
    "Command 'echo hi' in image 'alpine' returned non-zero exit status 1",
    and with stderr "boom" the same followed by ": boom". *)
Theorem ContainerError_message
    (container : Container) (exit_status : Z)
    (command : ContainerError.Value) (image : string)
    (stderr : option ContainerError.Value) :
  let e := ContainerError.__init__ container exit_status command image
             stderr in
  eval ContainerError.__str__ e
  = "Command '" ++ ContainerError.fmt command ++ "' in image '" ++ image
    ++ "' returned non-zero exit status " ++ str_int exit_status
    ++ match stderr with
       | Some err => ": " ++ ContainerError.fmt err
       | None => ""
       end /\
  exec ContainerError.__str__ e = e /\
  (forall l : list ContainerError.assignment,
     eval ContainerError.__str__ (fold_left ContainerError.assign l e)
     = eval ContainerError.__str__ e) /\
  (ContainerError.container e = container /\
   ContainerError.exit_status e = exit_status /\
   ContainerError.command e = command /\
   ContainerError.image e = image /\
   ContainerError.stderr e = stderr) /\
  eval ContainerError.__str__
    (ContainerError.__init__ container 1 (ContainerError.Str "echo hi")
       "alpine" None)
  = "Command 'echo hi' in image 'alpine' returned non-zero exit status 1" /\
  eval ContainerError.__str__
    (ContainerError.__init__ container 1 (ContainerError.Str "echo hi")
       "alpine" (Some (ContainerError.Str "boom")))
  = "Command 'echo hi' in image 'alpine' returned non-zero exit status 1"
    ++ ": boom".
Proof.
  intro e. split; [ | split; [ | split; [ | split; [ | split ] ] ] ].
  - destruct stderr; reflexivity.
  - apply readonly_ContainerError_str.
  - intro l. unfold eval, ContainerError.__str__, gets, fst.
    apply assign_keeps_args.
  - repeat split.
  - reflexivity.
  - reflexivity.
Qed.

End ContainerErrorProperties.

(** The stored message is not derived again: after the exit status is
    assigned, the rendering still names the one given at construction. *)
Example ContainerError_message_is_stored :
  let e := @ContainerError.__init__ example_runtime "f3a9" 1
             (ContainerError.Lst ["echo"; "hi"]) "alpine" None in
  eval ContainerError.__str__
    (ContainerError.assign e (ContainerError.SetExitStatus 2))
  = "Command '['echo', 'hi']' in image 'alpine' returned non-zero exit status 1".
Proof. reflexivity. Qed.

(** ** Dicts *)

Lemma wfb_sound (d : Dict.t) : Dict.wfb d = true -> Dict.wf d.
Proof.
  unfold Dict.wf. induction d as [| [k v] d IH]; simpl; intro H.
  - constructor.
  - apply andb_true_iff in H as [Hk Hd]. constructor; [ | auto ].
    intro Hin. apply negb_true_iff in Hk.
    assert (existsb (String.eqb k) (map fst d) = true) as Hex.
    { apply existsb_exists. exists k. split; [ exact Hin | apply String.eqb_refl ]. }
    congruence.
Qed.

Lemma setitem_fresh (d : Dict.t) (k v : string) :
  ~ In k (map fst d) -> Dict.setitem d k v = (d ++ [(k, v)])%list.
Proof.
  induction d as [| [k' v'] d IH]; simpl; intro H; [ reflexivity | ].
  destruct (String.eqb_spec k' k) as [-> | Hne].
  - exfalso. apply H. left. reflexivity.
  - rewrite IH; [ reflexivity | ]. intro Hin. apply H. right. exact Hin.
Qed.

Section Comprehension.
Variable cond : string -> bool.

(** A comprehension sees its source through the items that pass. *)
Lemma fold_step_filter (d acc : Dict.t) :
  fold_left (Dict.comprehension_step cond) d acc
  = fold_left (Dict.comprehension_step cond)
      (filter (fun kv => cond (fst kv)) d) acc.
Proof.
  revert acc. induction d as [| kv d IH]; intro acc; [ reflexivity | ].
  simpl. unfold Dict.comprehension_step at 2.
  destruct (cond (fst kv)) eqn:Hc.
  - simpl. unfold Dict.comprehension_step at 3. rewrite Hc. apply IH.
  - apply IH.
Qed.

(** With pairwise distinct keys every stored item is new, and goes last. *)
Lemma fold_step_wf (d acc : Dict.t) :
  NoDup (map fst (acc ++ d)) ->
  fold_left (Dict.comprehension_step cond) d acc
  = (acc ++ filter (fun kv => cond (fst kv)) d)%list.
Proof.
  revert acc. induction d as [| [k v] d IH]; intros acc Hnd; simpl.
  - rewrite app_nil_r. reflexivity.
  - rewrite map_app in Hnd. simpl in Hnd.
    pose proof (NoDup_remove_1 _ _ _ Hnd) as Hrest.
    pose proof (NoDup_remove_2 _ _ _ Hnd) as Hk.
    unfold Dict.comprehension_step at 2. simpl fst. simpl snd.
    destruct (cond k).
    + rewrite setitem_fresh.
      * rewrite IH.
        -- rewrite <- app_assoc. reflexivity.
        -- rewrite <- app_assoc. simpl. rewrite map_app. simpl. exact Hnd.
      * intro Hin. apply Hk. apply in_or_app. left. exact Hin.
    + apply IH. rewrite map_app. exact Hrest.
Qed.

Lemma comprehension_filter (d : Dict.t) :
  Dict.comprehension cond d
  = Dict.comprehension cond (filter (fun kv => cond (fst kv)) d).
Proof. unfold Dict.comprehension, Dict.items. apply fold_step_filter. Qed.

Lemma comprehension_wf (d : Dict.t) :
  Dict.wf d ->
  Dict.comprehension cond d = filter (fun kv => cond (fst kv)) d.
Proof.
  intro H. unfold Dict.comprehension, Dict.items.
  apply (fold_step_wf d []). exact H.
Qed.

End Comprehension.

Lemma setitem_In (d : Dict.t) (k v : string) (kv : string * string) :
  In kv (Dict.setitem d k v) -> kv = (k, v) \/ In kv d.
Proof.
  induction d as [| [k' v'] d IH]; simpl.
  - intros [H | []]. left. symmetry. exact H.
  - destruct (String.eqb_spec k' k) as [-> | Hne]; simpl.
    + intros [H | H]; [ left; symmetry; exact H | right; right; exact H ].
    + intros [H | H]; [ right; left; exact H | ].
      destruct (IH H) as [H' | H']; [ left | right; right ]; exact H'.
Qed.

Lemma setitem_keys (d : Dict.t) (k v : string) :
  map fst (Dict.setitem d k v)
  = if existsb (String.eqb k) (map fst d) then map fst d
    else (map fst d ++ [k])%list.
Proof.
  induction d as [| [k' v'] d IH]; simpl; [ reflexivity | ].
  rewrite (String.eqb_sym k k').
  destruct (String.eqb_spec k' k) as [-> | Hne]; simpl; [ reflexivity | ].
  rewrite IH. destruct (existsb (String.eqb k) (map fst d)); reflexivity.
Qed.

Lemma setitem_wf (d : Dict.t) (k v : string) :
  Dict.wf d -> Dict.wf (Dict.setitem d k v).
Proof.
  unfold Dict.wf. intro H. rewrite setitem_keys.
  destruct (existsb (String.eqb k) (map fst d)) eqn:Hex; [ exact H | ].
  apply NoDup_app; [ exact H | repeat constructor; simpl; tauto | ].
  intros x Hx [Heq | []]. subst x.
  rename k into x.
  assert (existsb (String.eqb x) (map fst d) = true); [ | congruence ].
  apply existsb_exists. exists x. split; [ exact Hx | apply String.eqb_refl ].
Qed.

Lemma comprehension_In (cond : string -> bool) (d : Dict.t)
    (kv : string * string) :
  In kv (Dict.comprehension cond d) -> cond (fst kv) = true /\ In kv d.
Proof.
  unfold Dict.comprehension, Dict.items.
  assert (forall acc,
            In kv (fold_left (Dict.comprehension_step cond) d acc) ->
            In kv acc \/ (cond (fst kv) = true /\ In kv d)) as Hgen.
  { induction d as [| [k v] d IH]; intros acc H; simpl in H;
      [ left; exact H | ].
    destruct (IH _ H) as [Hacc | [Hc Hin]].
    - unfold Dict.comprehension_step in Hacc. cbn [fst snd] in Hacc.
      destruct (cond k) eqn:Hk; [ | left; exact Hacc ].
      destruct (setitem_In _ _ _ _ Hacc) as [-> | Hacc'].
      + right. split; [ exact Hk | left; reflexivity ].
      + left. exact Hacc'.
    - right. split; [ exact Hc | right; exact Hin ]. }
  intro H. destruct (Hgen [] H) as [[] | H']. exact H'.
Qed.

(** What a comprehension builds is a dict. *)
Lemma comprehension_is_wf (cond : string -> bool) (d : Dict.t) :
  Dict.wf (Dict.comprehension cond d).
Proof.
  unfold Dict.comprehension, Dict.items.
  assert (forall acc, Dict.wf acc ->
            Dict.wf (fold_left (Dict.comprehension_step cond) d acc))
    as Hgen.
  { induction d as [| [k v] d IH]; intros acc H; simpl; [ exact H | ].
    apply IH. unfold Dict.comprehension_step. cbn [fst snd].
    destruct (cond k); [ apply setitem_wf | ]; exact H. }
  apply Hgen. constructor.
Qed.

(** ** PodmanConnectionError *)

Lemma allowed_is_relevant (k : string) :
  Spec.allowed k = PodmanConnectionError.is_relevant k.
Proof.
  unfold Spec.allowed, PodmanConnectionError.is_relevant, Spec.allow_list,
    PodmanConnectionError.relevant_names. cbn [existsb].
  repeat match goal with
         | |- context [(k =? ?s)%string] =>
             destruct (k =? s)%string; cbn [orb]; try reflexivity
         end.
Qed.

Lemma allowed_iff (k : string) :
  Spec.allowed k = true <->
  k = "DOCKER_HOST" \/ k = "DOCKER_TLS_VERIFY" \/ k = "DOCKER_CERT_PATH" \/
  k = "CONTAINER_HOST" \/ k = "CONTAINER_TLS_VERIFY" \/
  k = "CONTAINER_CERT_PATH".
Proof.
  unfold Spec.allowed, Spec.allow_list. rewrite existsb_exists. split.
  - intros [x [Hin Hx]]. apply String.eqb_eq in Hx. subst x.
    simpl in Hin. intuition auto.
  - intro H. exists k. split; [ | apply String.eqb_refl ].
    simpl. intuition auto.
Qed.

Lemma append_lines (rv : list (string * string)) (msg : list string) :
  fold_left (fun msg kv => append msg ("  " ++ fst kv ++ "=" ++ snd kv))
    rv msg
  = (msg ++ map Spec.line rv)%list.
Proof.
  revert msg. induction rv as [| kv rv IH]; intro msg; simpl.
  - rewrite app_nil_r. reflexivity.
  - rewrite IH. unfold append. rewrite <- app_assoc. reflexivity.
Qed.

Section ConnectionRendering.
Context {E : Type}.
Variable f : M E string.

Lemma run_PodmanConnectionError_str (c : PodmanConnectionError.t E) :
  PodmanConnectionError.__str__ f c
  = match PodmanConnectionError.original_error c with
    | Some e =>
        let (s, e') := f e in
        (join " | " (head_segments c ++ ["Caused by: " ++ s]),
         PodmanConnectionError.mk (PodmanConnectionError.args c)
           (PodmanConnectionError.environment c)
           (PodmanConnectionError.host c) (Some e'))
    | None => (join " | " (head_segments c), c)
    end.
Proof.
  destruct c as [a env h cause].
  unfold PodmanConnectionError.__str__, PodmanConnectionError.super_str,
    PodmanConnectionError.str_original_error, head_segments.
  cbv beta iota zeta delta [bind gets ret].
  cbn [PodmanConnectionError.args PodmanConnectionError.host
       PodmanConnectionError.environment PodmanConnectionError.original_error].
  destruct h as [[| ch h] |];
    cbv beta iota delta [truthy_str String.eqb negb Spec.host_segment
                         Spec.nonempty];
    cbn [PodmanConnectionError.args PodmanConnectionError.host
         PodmanConnectionError.environment
         PodmanConnectionError.original_error];
    (destruct env as [[| kv d] |];
     [ | destruct (Dict.comprehension PodmanConnectionError.is_relevant
                     (kv :: d)) as [| kv' rv] eqn:Hrv | ]);
    cbn [relevant_vars]; try rewrite Hrv;
    cbv beta iota delta [Dict.truthy Dict.items];
    try rewrite append_lines;
    cbn [PodmanConnectionError.args PodmanConnectionError.host
         PodmanConnectionError.environment
         PodmanConnectionError.original_error].
  all: destruct cause as [e |]; [ destruct (f e) as [s e'] | ].
  all: reflexivity.
Qed.

End ConnectionRendering.

Section ExceptionProperties.
Context {RT : Runtime}.

Lemma readonly_str_within (n : nat) : readonly (str_within n).
Proof.
  induction n as [| n IH]; intros [a | p | b | ce | c | sp];
    unfold exec; cbn [str_within];
    try rewrite run_APIError_str; try reflexivity.
  rewrite run_PodmanConnectionError_str.
  destruct c as [a env h [e |]]; cbn; [ | reflexivity ].
  rewrite (readonly_run _ e IH). reflexivity.
Qed.

Lemma readonly_str : readonly str.
Proof. intro e. unfold str. apply readonly_str_within. Qed.

(** [str] on a connection error: the segments before the cause, then the
    cause as [str] renders it; the error is left as it was. *)
Lemma run_str_connection (c : PodmanConnectionError.t Exn) :
  str (OfPodmanConnectionError c)
  = (join " | "
       (head_segments c
          ++ Spec.cause_segment
               (option_map (eval str)
                  (PodmanConnectionError.original_error c))),
     OfPodmanConnectionError c).
Proof.
  unfold str at 1. cbn [str_within].
  rewrite run_PodmanConnectionError_str.
  destruct c as [a env h [e |]];
    cbn [PodmanConnectionError.original_error causes option_map
         Spec.cause_segment PodmanConnectionError.args
         PodmanConnectionError.host PodmanConnectionError.environment].
  - fold (str e). rewrite (readonly_run _ e readonly_str). reflexivity.
  - rewrite app_nil_r. reflexivity.
Qed.

(** More depth than the chain of causes is long changes nothing. *)
Lemma str_within_enough (n : nat) (e : Exn) :
  (causes e < n)%nat -> str_within n e = str e.
Proof.
  revert e. induction n as [| n IH]; intros e Hn; [ lia | ].
  destruct e as [a | p | b | ce | c | sp]; try reflexivity.
  rewrite run_str_connection. cbn [str_within].
  rewrite run_PodmanConnectionError_str.
  destruct c as [a env h [e |]];
    cbn [PodmanConnectionError.original_error causes option_map
         Spec.cause_segment PodmanConnectionError.args
         PodmanConnectionError.host PodmanConnectionError.environment] in *.
  - rewrite IH by lia. rewrite (readonly_run _ e readonly_str). reflexivity.
  - rewrite app_nil_r. reflexivity.
Qed.

End ExceptionProperties.

Lemma surviving_relevant (d : Dict.t) :
  filter (fun kv => PodmanConnectionError.is_relevant (fst kv)) d
  = Spec.surviving (Some d).
Proof.
  unfold Spec.surviving, Dict.items. apply filter_ext.
  intro kv. symmetry. apply allowed_is_relevant.
Qed.

(** The dict the comprehension builds depends on the environment through
    its allow-listed entries only. *)
Lemma relevant_vars_surviving (env : option Dict.t) :
  relevant_vars env
  = Dict.comprehension PodmanConnectionError.is_relevant (Spec.surviving env).
Proof.
  destruct env as [d |]; [ | reflexivity ].
  cbn [relevant_vars]. rewrite comprehension_filter, surviving_relevant.
  reflexivity.
Qed.

(** On a dict, the comprehension is the filter. *)
Lemma relevant_vars_wf (env : option Dict.t) :
  (forall d, env = Some d -> Dict.wf d) ->
  relevant_vars env = Spec.surviving env.
Proof.
  destruct env as [d |]; intro H; [ | reflexivity ].
  cbn [relevant_vars]. rewrite comprehension_wf by (apply H; reflexivity).
  apply surviving_relevant.
Qed.

Lemma surviving_setitem (d : Dict.t) (k v : string) :
  Spec.allowed k = false ->
  Spec.surviving (Some (Dict.setitem d k v)) = Spec.surviving (Some d).
Proof.
  intro Hk. unfold Spec.surviving, Dict.items.
  induction d as [| [k' v'] d IH]; simpl.
  - rewrite Hk. reflexivity.
  - destruct (String.eqb_spec k' k) as [-> | Hne]; simpl.
    + rewrite Hk. reflexivity.
    + rewrite IH. reflexivity.
Qed.

Section ConnectionClaims.
Context {RT : Runtime}.

Lemma eval_str_connection (c : PodmanConnectionError.t Exn) :
  eval str (OfPodmanConnectionError c)
  = join " | "
      (head_segments c
         ++ Spec.cause_segment
              (option_map (eval str)
                 (PodmanConnectionError.original_error c))).
Proof. unfold eval at 1. rewrite run_str_connection. reflexivity. Qed.

(** [str] of a connection error is its own [__str__], given [str] for the
    cause. *)
Lemma str_dispatch_connection (c : PodmanConnectionError.t Exn) :
  eval str (OfPodmanConnectionError c)
  = eval (PodmanConnectionError.__str__ str) c.
Proof.
  rewrite eval_str_connection. unfold eval at 2.
  rewrite run_PodmanConnectionError_str.
  destruct c as [a env h [e |]];
    cbn [PodmanConnectionError.original_error option_map Spec.cause_segment].
  - rewrite (readonly_run _ e readonly_str). reflexivity.
  - rewrite app_nil_r. reflexivity.
Qed.

(** C2, amended. [__str__] of a connection error produces, in this order:
    the message; a ["Host: {host}"] segment if the host is present and not
    the empty string; if some entry of the environment survives the
    allow-list filter, the segment ["Environment:"] and then one segment
    ["  {key}={value}"] per surviving entry, in the order of the mapping;
    a ["Caused by: {str(original_error)}"] segment if there is an original
    error. The segments, the header and each entry line among them, are
    joined by [" | "]. *)
Theorem PodmanConnectionError_str_segments (c : PodmanConnectionError.t Exn) :
  (forall d, PodmanConnectionError.environment c = Some d -> Dict.wf d) ->
  eval (PodmanConnectionError.__str__ str) c
  = join " | "
      ([PodmanConnectionError.args c]
         ++ Spec.host_segment Spec.nonempty (PodmanConnectionError.host c)
         ++ Spec.environment_lines
              (Spec.surviving (PodmanConnectionError.environment c))
         ++ Spec.cause_segment
              (option_map (eval str)
                 (PodmanConnectionError.original_error c)))%list.
Proof.
  intro Hwf. rewrite <- str_dispatch_connection, eval_str_connection.
  unfold head_segments.
  rewrite (relevant_vars_wf _ Hwf). rewrite <- !app_assoc. reflexivity.
Qed.

(** C3. The rendering of a connection error depends on the environment
    through its allow-listed entries only: two environments with the same
    entries under the six names [DOCKER_HOST], [DOCKER_TLS_VERIFY],
    [DOCKER_CERT_PATH], [CONTAINER_HOST], [CONTAINER_TLS_VERIFY],
    [CONTAINER_CERT_PATH] render identically, whatever else they hold;
    binding a key outside the list, to any value, changes nothing in the
    output; and the environment lines of the output are those of the dict
    [relevant_vars], whose every entry is an entry of the environment under
    an allow-listed key. *)
Theorem PodmanConnectionError_str_allow_list
    (message : string) (host : option string) (cause : option Exn) :
  let render env :=
    eval (PodmanConnectionError.__str__ str)
      (PodmanConnectionError.__init__ message env host cause) in
  (forall env1 env2 : option Dict.t,
     Spec.surviving env1 = Spec.surviving env2 ->
     render env1 = render env2) /\
  (forall (d : Dict.t) (k v : string),
     Spec.allowed k = false ->
     render (Some (Dict.setitem d k v)) = render (Some d)) /\
  (forall env : option Dict.t,
     render env
     = join " | "
         ([message] ++ Spec.host_segment Spec.nonempty host
            ++ Spec.environment_lines (relevant_vars env)
            ++ Spec.cause_segment (option_map (eval str) cause))%list) /\
  (forall (env : option Dict.t) (k v : string),
     In (k, v) (relevant_vars env) ->
     In k Spec.allow_list /\ In (k, v) (Spec.surviving env)).
Proof.
  intro render.
  assert (Hrender : forall env,
            render env
            = join " | "
                ([message] ++ Spec.host_segment Spec.nonempty host
                   ++ Spec.environment_lines (relevant_vars env)
                   ++ Spec.cause_segment (option_map (eval str) cause))%list).
  { intro env. unfold render.
    rewrite <- str_dispatch_connection, eval_str_connection.
    unfold head_segments. rewrite <- !app_assoc. reflexivity. }
  assert (Hni : forall env1 env2,
            Spec.surviving env1 = Spec.surviving env2 ->
            render env1 = render env2).
  { intros env1 env2 H. rewrite !Hrender.
    rewrite (relevant_vars_surviving env1), (relevant_vars_surviving env2), H.
    reflexivity. }
  repeat split.
  - exact Hni.
  - intros d k v Hk. apply Hni. apply surviving_setitem. exact Hk.
  - exact Hrender.
  - rewrite relevant_vars_surviving in H.
    apply comprehension_In in H as [Hk _]. cbn [fst] in Hk.
    rewrite <- allowed_is_relevant in Hk. unfold Spec.allowed in Hk.
    apply existsb_exists in Hk as [x [Hin Hx]].
    apply String.eqb_eq in Hx. subst x. exact Hin.
  - rewrite relevant_vars_surviving in H.
    apply comprehension_In in H as [_ Hin]. exact Hin.
Qed.

(** C8. [str] of an error object of the hierarchy leaves the object, the
    response and the cause it refers to included, exactly as it was, and
    [str] called again on it returns the same string. *)
Theorem str_is_pure (e : Exn) :
  exec str e = e /\
  eval str (exec str e) = eval str e /\
  (first <- str ;; second <- str ;; ret (first, second)) e
  = ((eval str e, eval str e), e).
Proof.
  pose proof (readonly_str e) as H. repeat split.
  - exact H.
  - rewrite H. reflexivity.
  - unfold bind, ret. rewrite (readonly_run _ e readonly_str).
    rewrite (readonly_run _ e readonly_str). reflexivity.
Qed.

End ConnectionClaims.

Lemma PodmanConnectionError_str_segments_witness :
  Dict.wf [("DOCKER_HOST", "tcp://x"); ("UNRELATED", "y")] /\
  eval (PodmanConnectionError.__str__ str) cannot_connect
  = "cannot connect | Host: unix:///var/run/podman.sock | Environment: |   DOCKER_HOST=tcp://x".
Proof.
  assert (Hwf : Dict.wf [("DOCKER_HOST", "tcp://x"); ("UNRELATED", "y")])
    by (apply wfb_sound; reflexivity).
  split; [ exact Hwf | ].
  rewrite PodmanConnectionError_str_segments.
  - reflexivity.
  - intros d Hd. inversion Hd. exact Hwf.
Defined.

(** The example of the specification renders with the environment header and
    its entry line as two segments, not as one segment holding a line feed;
    and a host that is present but empty gets no segment, where the
    algorithm that adds one whenever a host is present gives
    ["cannot connect | Host: "]. *)
Lemma PodmanConnectionError_str_not_one_segment :
  eval (PodmanConnectionError.__str__ str) cannot_connect
  = "cannot connect | Host: unix:///var/run/podman.sock | Environment: |   DOCKER_HOST=tcp://x"
  /\
  eval (PodmanConnectionError.__str__ str) cannot_connect
  <> join " | "
       [ "cannot connect"; "Host: unix:///var/run/podman.sock";
         "Environment:" ++ LF ++ "  DOCKER_HOST=tcp://x" ]
  /\
  Spec.render_connection Spec.present Spec.environment_segment
    "cannot connect" (Some "unix:///var/run/podman.sock")
    (Some [("DOCKER_HOST", "tcp://x"); ("UNRELATED", "y")]) None
  = join " | "
      [ "cannot connect"; "Host: unix:///var/run/podman.sock";
        "Environment:" ++ LF ++ "  DOCKER_HOST=tcp://x" ]
  /\
  eval (PodmanConnectionError.__str__ (@str example_runtime))
    (PodmanConnectionError.__init__ "cannot connect" None (Some "") None)
  = "cannot connect"
  /\
  Spec.render_connection Spec.present Spec.environment_segment
    "cannot connect" (Some "") None None
  = "cannot connect | Host: ".
Proof.
  repeat split; try reflexivity. vm_compute. discriminate.
Qed.

Lemma PodmanConnectionError_str_allow_list_witness :
  let env1 := Some [("DOCKER_HOST", "tcp://x"); ("UNRELATED", "y")] in
  let env2 := Some [("AWS_SECRET_ACCESS_KEY", "hunter2");
                    ("DOCKER_HOST", "tcp://x")] in
  Spec.surviving env1 = Spec.surviving env2 /\
  eval (PodmanConnectionError.__str__ (@str example_runtime))
    (PodmanConnectionError.__init__ "cannot connect" env1 None None)
  = eval (PodmanConnectionError.__str__ (@str example_runtime))
      (PodmanConnectionError.__init__ "cannot connect" env2 None None).
Proof.
  intros env1 env2.
  assert (H : Spec.surviving env1 = Spec.surviving env2) by reflexivity.
  split; [ exact H | ].
  exact (proj1 (PodmanConnectionError_str_allow_list "cannot connect"
                  None None) env1 env2 H).
Defined.

(** * Further properties *)

(** ** Strings and joins *)

Lemma str_append_assoc (a b c : string) : (a ++ b) ++ c = a ++ (b ++ c).
Proof. induction a as [| ch a IH]; cbn; [ | rewrite IH ]; reflexivity. Qed.

Lemma str_append_empty_r (a : string) : a ++ "" = a.
Proof. induction a as [| ch a IH]; cbn; [ | rewrite IH ]; reflexivity. Qed.

Lemma prefix_append (a b : string) : prefix a (a ++ b) = true.
Proof.
  induction a as [| ch a IH]; cbn.
  - destruct b; reflexivity.
  - destruct (ascii_dec ch ch) as [_ | Hne]; [ exact IH | congruence ].
Qed.

Lemma join_head (sep first : string) (rest : list string) :
  exists tail, join sep (first :: rest) = first ++ tail.
Proof.
  destruct rest as [| x rest].
  - exists "". cbn. symmetry. apply str_append_empty_r.
  - exists (sep ++ join sep (x :: rest)). reflexivity.
Qed.

Lemma join_last (sep x first : string) (rest : list string) :
  join sep ((first :: rest) ++ [x]) = join sep (first :: rest) ++ sep ++ x.
Proof.
  revert first. induction rest as [| y rest IH]; intro first.
  - reflexivity.
  - change (join sep ((first :: y :: rest) ++ [x]))
      with (first ++ sep ++ join sep ((y :: rest) ++ [x])).
    rewrite IH.
    change (join sep (first :: y :: rest))
      with (first ++ sep ++ join sep (y :: rest)).
    rewrite !str_append_assoc. reflexivity.
Qed.

(** ** APIError *)

(** X1. No [APIError] is both a client error and a server error: the two
    status ranges do not meet, whatever the status code. *)
Theorem APIError_classes_exclusive (e : APIError.t) :
  eval APIError.is_client_error e && eval APIError.is_server_error e = false.
Proof.
  rewrite eval_is_client_error, eval_is_server_error.
  unfold Spec.isClientError, Spec.isServerError.
  destruct (Spec.statusCode e) as [c |]; [ lia | reflexivity ].
Qed.

(** X2. [is_error()] is true exactly when the error holds a response whose
    status code lies in [400, 600): without a response, or with any other
    code, it is false. *)
Theorem APIError_is_error_iff (e : APIError.t) :
  eval APIError.is_error e = true <->
  exists r : Response.t,
    APIError.response e = Some r /\ 400 <= Response.status_code r < 600.
Proof.
  rewrite eval_is_error, eval_is_client_error, eval_is_server_error.
  unfold Spec.isClientError, Spec.isServerError, Spec.statusCode.
  destruct (APIError.response e) as [r |]; cbn [option_map]; split.
  - intro H. exists r. split; [ reflexivity | lia ].
  - intros [r' [Hr Hc]]. inversion Hr. subst r'. lia.
  - discriminate.
  - intros [r' [Hr _]]. discriminate.
Qed.

(** X3. Once a response is attached, the constructor message has no part in
    the rendering: two errors that differ in the message only render
    identically. *)
Theorem APIError_str_ignores_message
    (cls : Class.t) (message1 message2 : string) (r : Response.t)
    (expl : option string) :
  eval APIError.__str__ (APIError.__init__ cls message1 (Some r) expl)
  = eval APIError.__str__ (APIError.__init__ cls message2 (Some r) expl).
Proof. rewrite !eval_APIError_str. reflexivity. Qed.

(** X4. [NotFound] and [ImageNotFound] add no behaviour: the class an error
    was created from changes neither its rendering, nor its status code,
    nor any of the three status predicates. *)
Theorem APIError_subclasses_add_nothing
    (cls1 cls2 : Class.t) (message : string) (resp : option Response.t)
    (expl : option string) :
  let e1 := APIError.__init__ cls1 message resp expl in
  let e2 := APIError.__init__ cls2 message resp expl in
  eval APIError.__str__ e1 = eval APIError.__str__ e2 /\
  eval APIError.status_code e1 = eval APIError.status_code e2 /\
  eval APIError.is_client_error e1 = eval APIError.is_client_error e2 /\
  eval APIError.is_server_error e1 = eval APIError.is_server_error e2 /\
  eval APIError.is_error e1 = eval APIError.is_error e2.
Proof.
  intros e1 e2.
  rewrite !eval_APIError_str, !eval_is_error, !eval_is_client_error,
    !eval_is_server_error, !eval_status_code.
  repeat split.
Qed.

(** X5. With a response, the rendering is three parts one after the other:
    a prefix fixed by the status code alone (none outside [400, 600)), the
    reason, and a suffix fixed by the explanation alone (none when it is
    [None] or empty). *)
Theorem APIError_str_three_parts
    (cls : Class.t) (message : string) (r : Response.t)
    (expl : option string) :
  let c := Response.status_code r in
  eval APIError.__str__ (APIError.__init__ cls message (Some r) expl)
  = (if (400 <=? c) && (c <? 500) then str_int c ++ " Client Error: "
     else if (500 <=? c) && (c <? 600) then str_int c ++ " Server Error: "
     else "")
    ++ Response.reason r
    ++ match expl with
       | Some x => if (x =? "")%string then "" else " (" ++ x ++ ")"
       | None => ""
       end.
Proof.
  intro c. rewrite eval_APIError_str.
  unfold Spec.render_transport, Spec.isClientError, Spec.isServerError,
    Spec.statusCode, Spec.nonempty.
  cbn [APIError.__init__ APIError.response APIError.args
       APIError.explanation option_map]. fold c.
  destruct ((400 <=? c) && (c <? 500));
    [ | destruct ((500 <=? c) && (c <? 600)) ];
    (destruct expl as [x |]; [ destruct (x =? "")%string | ]);
    cbn [negb]; rewrite ?str_append_assoc, ?str_append_empty_r; reflexivity.
Qed.

(** ** Handlers *)

(** X6. [except PodmanError] catches exactly [PodmanError], [BuildError],
    [ContainerError], [InvalidArgument] and [PodmanConnectionError], and
    [except DockerException] these and [DockerException]: neither catches
    an [APIError], a [NotFound], an [ImageNotFound] or a
    [StreamParseError]. *)
Theorem except_PodmanError_catches (c : Class.t) :
  (Class.catches Class.PodmanError c = true <->
   In c [ Class.PodmanError; Class.BuildError; Class.ContainerError;
          Class.InvalidArgument; Class.PodmanConnectionError ]) /\
  (Class.catches Class.DockerException c = true <->
   In c [ Class.DockerException; Class.PodmanError; Class.BuildError;
          Class.ContainerError; Class.InvalidArgument;
          Class.PodmanConnectionError ]).
Proof.
  split; split.
  1, 3: destruct c; cbn; intro H; try discriminate H; tauto.
  all: cbn; intro H; repeat destruct H as [<- | H]; try reflexivity;
    contradiction.
Qed.

(** X7. [except APIError] catches exactly [APIError], [NotFound] and
    [ImageNotFound]; [except HTTPError] catches these three as well; and
    [NotFound] and [ImageNotFound] have no subclass, so a handler for either
    catches that class alone. *)
Theorem except_APIError_catches (c : Class.t) :
  (Class.catches Class.APIError c = true <->
   In c [ Class.APIError; Class.NotFound; Class.ImageNotFound ]) /\
  (Class.catches Class.HTTPError c = true <->
   In c [ Class.HTTPError; Class.APIError; Class.NotFound;
          Class.ImageNotFound ]) /\
  (Class.catches Class.NotFound c = true <-> c = Class.NotFound) /\
  (Class.catches Class.ImageNotFound c = true <-> c = Class.ImageNotFound).
Proof.
  repeat split.
  1, 3, 5, 7: destruct c; cbn; intro H; try discriminate H; tauto.
  1, 2: cbn; intro H; repeat destruct H as [<- | H]; try reflexivity;
    contradiction.
  all: intros ->; reflexivity.
Qed.

(** ** BuildError and StreamParseError *)

Section FurtherExceptionProperties.
Context {RT : Runtime}.

(** X8. A [BuildError] renders as the reason it was given, which is also its
    [msg]; the build log is kept as an attribute and has no part in the
    rendering. *)
Theorem BuildError_str_is_reason (reason : string) (log1 log2 : list string) :
  let e := BuildError.__init__ reason log1 in
  eval str (OfBuildError e) = reason /\
  eval str (OfBuildError e) = BuildError.msg e /\
  BuildError.build_log e = log1 /\
  eval str (OfBuildError (BuildError.__init__ reason log2))
  = eval str (OfBuildError e).
Proof. repeat split. Qed.

(** X9. A [StreamParseError] renders as the reason it was given, which is
    also its [msg]. *)
Theorem StreamParseError_str_is_reason (reason : string) :
  let e := StreamParseError.__init__ reason in
  eval str (OfStreamParseError e) = reason /\
  eval str (OfStreamParseError e) = StreamParseError.msg e.
Proof. repeat split. Qed.

(** ** PodmanConnectionError *)

(** X10. The rendering of a connection error always begins with its
    message, whatever host, environment and cause it carries. *)
Theorem PodmanConnectionError_str_starts_with_message
    (c : PodmanConnectionError.t Exn) :
  prefix (PodmanConnectionError.args c)
    (eval (PodmanConnectionError.__str__ str) c) = true.
Proof.
  rewrite <- str_dispatch_connection, eval_str_connection.
  unfold head_segments. rewrite <- !app_assoc.
  cbn [app].
  match goal with
  | |- context [join " | " (?m :: ?rest)] =>
      destruct (join_head " | " m rest) as [tail Htail]
  end.
  rewrite Htail. apply prefix_append.
Qed.

(** X11. A cause only adds to the end: the rendering of a connection error
    with an original error is the rendering of the same error without one,
    followed by [" | Caused by: "] and [str] of the original error. *)
Theorem PodmanConnectionError_str_cause_last
    (message : string) (env : option Dict.t) (host : option string)
    (cause : Exn) :
  eval (PodmanConnectionError.__str__ str)
    (PodmanConnectionError.__init__ message env host (Some cause))
  = eval (PodmanConnectionError.__str__ str)
      (PodmanConnectionError.__init__ message env host None)
    ++ " | Caused by: " ++ eval str cause.
Proof.
  rewrite <- !str_dispatch_connection, !eval_str_connection.
  unfold head_segments.
  cbn [PodmanConnectionError.__init__ PodmanConnectionError.args
       PodmanConnectionError.host PodmanConnectionError.environment
       PodmanConnectionError.original_error option_map Spec.cause_segment].
  rewrite app_nil_r.
  exact (join_last " | " ("Caused by: " ++ eval str cause) message
           (Spec.host_segment Spec.nonempty host
              ++ Spec.environment_lines (relevant_vars env))).
Qed.

(** X12. With no host (or an empty one), no allow-listed entry in the
    environment and no original error, a connection error renders as its
    message alone: no separator, no ["Environment:"] header. *)
Theorem PodmanConnectionError_str_message_alone
    (message : string) (env : option Dict.t) (host : option string) :
  Spec.nonempty host = false ->
  Spec.surviving env = [] ->
  eval (PodmanConnectionError.__str__ str)
    (PodmanConnectionError.__init__ message env host None)
  = message.
Proof.
  intros Hhost Henv.
  rewrite <- str_dispatch_connection, eval_str_connection.
  unfold head_segments.
  cbn [PodmanConnectionError.__init__ PodmanConnectionError.args
       PodmanConnectionError.host PodmanConnectionError.environment
       PodmanConnectionError.original_error option_map Spec.cause_segment].
  unfold Spec.host_segment. rewrite Hhost.
  rewrite relevant_vars_surviving, Henv. reflexivity.
Qed.

End FurtherExceptionProperties.

Lemma PodmanConnectionError_str_message_alone_witness :
  let env := Some [("UNRELATED", "y")] in
  Spec.nonempty (Some "") = false /\
  Spec.surviving env = [] /\
  eval (PodmanConnectionError.__str__ (@str example_runtime))
    (PodmanConnectionError.__init__ "cannot connect" env (Some "") None)
  = "cannot connect".
Proof.
  intro env.
  assert (Hhost : Spec.nonempty (Some "") = false) by reflexivity.
  assert (Henv : Spec.surviving env = []) by reflexivity.
  split; [ exact Hhost | split; [ exact Henv | ] ].
  exact (PodmanConnectionError_str_message_alone "cannot connect" env
           (Some "") Hhost Henv).
Defined.

(** X13. The dict of surfaced variables has pairwise distinct keys, all of
    them among the six allow-listed names: at most six environment lines
    are ever rendered, however large the environment. *)
Theorem relevant_vars_at_most_six (env : option Dict.t) :
  (length (relevant_vars env) <= 6)%nat /\
  NoDup (map fst (relevant_vars env)) /\
  (forall k, In k (map fst (relevant_vars env)) -> In k Spec.allow_list).
Proof.
  assert (Hwf : NoDup (map fst (relevant_vars env))).
  { destruct env as [d |]; [ apply comprehension_is_wf | constructor ]. }
  assert (Hin : forall k, In k (map fst (relevant_vars env)) ->
                          In k Spec.allow_list).
  { intros k Hk. apply in_map_iff in Hk as [[k' v] [Hfst Hkv]].
    cbn in Hfst. subst k'.
    destruct env as [d |]; [ | contradiction ].
    apply comprehension_In in Hkv as [Hrel _]. cbn [fst] in Hrel.
    rewrite <- allowed_is_relevant in Hrel.
    apply existsb_exists in Hrel as [x [Hx Heq]].
    apply String.eqb_eq in Heq. subst x. exact Hx. }
  split; [ | split; assumption ].
  rewrite <- (length_map fst).
  change 6%nat with (length Spec.allow_list).
  apply NoDup_incl_length; [ exact Hwf | exact Hin ].
Qed.
